(** * Framed-line stream readers of the httpgo experiments

    A shallow embedding of the three [getLinesChannel] variants, of the
    [main] functions that consume them and of the two TCP accept loops:

    - [FileReader]  : experiments/go/httpgo/main.go
    - [TcpListener] : experiments/go/httpgo/cmd/tcplistener/main.go
    - [TcpMulti]    : the goroutine-per-connection listener (delimiter CR LF)

    Go strings and byte slices are lists of bytes.  The goroutine that feeds
    the unbuffered channel is modelled by the sequence of values it sends and
    by whether it closes the channel; everything written with [log.Println]
    or [fmt.Println] on a read error is kept in a separate console list. *)

From Stdlib.Strings Require Import Byte String.
From Stdlib Require Import List Bool Arith Lia.
Import ListNotations.

Set Implicit Arguments.

(** ** Bytes and the functions of Go's [strings] package that the code calls *)

Definition bytes := list byte.

(** Literal byte strings, for readable examples. *)
Definition lit (s : string) : bytes := list_byte_of_string s.

Definition LF : byte := x0a.
Definition CR : byte := x0d.
Definition NUL : byte := x00.

(** [strings.HasPrefix s prefix]. *)
Fixpoint HasPrefix (s prefix : bytes) {struct prefix} : bool :=
  match prefix with
  | [] => true
  | p :: prefix' =>
      match s with
      | [] => false
      | c :: s' => Byte.eqb c p && HasPrefix s' prefix'
      end
  end.

(** [strings.Index s sep]: position of the first occurrence of [sep] in [s];
    Go's [-1] is [None]. *)
Fixpoint Index (s sep : bytes) : option nat :=
  if HasPrefix s sep then Some 0
  else match s with
       | [] => None
       | _ :: s' => option_map S (Index s' sep)
       end.

(** [strings.Contains s substr] is [Index(s, substr) >= 0]. *)
Definition Contains (s substr : bytes) : bool :=
  match Index s substr with
  | Some _ => true
  | None => false
  end.

(** The loop of [strings.genSplit] for a non-empty separator: cut at the
    first occurrence, skip the separator, repeat; the last element is what
    is left.  [n] bounds the number of cuts. *)
Fixpoint genSplit (n : nat) (s sep : bytes) : list bytes :=
  match n with
  | 0 => [s]
  | S n' =>
      match Index s sep with
      | None => [s]
      | Some m => firstn m s :: genSplit n' (skipn (m + length sep) s) sep
      end
  end.

(** [strings.Split s sep] for a non-empty [sep].  Every cut removes at least
    one byte, so [length s] cuts are never exceeded. *)
Definition Split (s sep : bytes) : list bytes := genSplit (length s) s sep.

(** [strings.Join elems sep]. *)
Fixpoint Join (elems : list bytes) (sep : bytes) : bytes :=
  match elems with
  | [] => []
  | [e] => e
  | e :: elems' => e ++ sep ++ Join elems' sep
  end.

(** ** Byte sources

    One call of [f.Read(a)] yields the bytes it stored at the front of [a]
    and an error value.  [n], the first result of [Read], is the number of
    bytes stored. *)

Inductive error : Type :=
| EOF                      (* io.EOF *)
| ErrIO (code : nat).      (* any other error value *)

Record ReadResult : Type := mkRead { rdata : bytes; rerr : option error }.

(** A source is the script of the results of its successive [Read] calls;
    once the script is used up every further call returns [(0, io.EOF)]. *)
Definition Source := list ReadResult.

Definition eofRead : ReadResult := mkRead [] (Some EOF).

(** The buffer [a] has 8 bytes; a well-formed read stores at most that many. *)
Definition bufSize : nat := 8.

Definition wf_source (f : Source) : Prop :=
  Forall (fun r => length (rdata r) <= bufSize) f.

(** [make([]byte, 8)]. *)
Definition make_buf : bytes := repeat NUL bufSize.

(** Effect of [f.Read(a)] on the slice: the first [n] bytes are overwritten,
    the others keep what earlier reads left there. *)
Definition fill (a : bytes) (r : ReadResult) : bytes :=
  rdata r ++ skipn (length (rdata r)) a.

(** ** The channel and the state of the reading goroutine *)

Record Chan : Type := mkChan { sent : list bytes; closed : bool }.

Definition send (c : Chan) (v : bytes) : Chan :=
  mkChan (sent c ++ [v]) (closed c).

Definition close (c : Chan) : Chan := mkChan (sent c) true.

Record State : Type := mkState {
  a : bytes;               (* var a = make([]byte, 8) *)
  line : bytes;            (* var line string *)
  strChan : Chan;          (* strChan := make(chan string) *)
  console : list error;    (* errors written by log.Println / fmt.Println *)
  reads : nat              (* number of calls of f.Read so far *)
}.

Definition init : State := mkState make_buf [] (mkChan [] false) [] 0.

(** Outcome of one pass through the body of [for { ... }]. *)
Inductive Loop : Type :=
| Continue (st : State)
| Return (st : State).

(** [isEOF, err := f.Read(a)]. *)
Definition doRead (r : ReadResult) (st : State) : State :=
  mkState (fill (a st) r) (line st) (strChan st) (console st) (S (reads st)).

Definition printErr (r : ReadResult) (st : State) : State :=
  match rerr r with
  | Some e => mkState (a st) (line st) (strChan st) (console st ++ [e]) (reads st)
  | None => st
  end.

(** The part of the loop body after the end-of-stream test, the same in the
    three files up to the delimiter:
<<
      stringedA := string(a)
      if strings.Contains(stringedA, delim) {
          str := strings.Split(stringedA, delim)
          line = line + strings.Join(str[:1], "")
          strChan <- line
          line = ""
          line = line + strings.Join(str[1:], "")
          continue
      }
      line = line + string(a)
>> *)
Definition chunk (delim : bytes) (st : State) : State :=
  let stringedA := a st in
  if Contains stringedA delim then
    let str := Split stringedA delim in
    let line1 := line st ++ Join (firstn 1 str) [] in
    let ch := send (strChan st) line1 in
    let line2 := [] ++ Join (skipn 1 str) [] in
    mkState (a st) line2 ch (console st) (reads st)
  else
    mkState (a st) (line st ++ a st) (strChan st) (console st) (reads st).

(** Running a loop body over a source. *)
Section Loop.
Variable body : ReadResult -> State -> Loop.

Fixpoint loop (f : Source) (st : State) : State :=
  match f with
  | [] => match body eofRead st with
          | Continue st' => st'
          | Return st' => st'
          end
  | r :: f' =>
      match body r st with
      | Continue st' => loop f' st'
      | Return st' => st'
      end
  end.
End Loop.

(** ** experiments/go/httpgo/main.go *)
Module FileReader.

Definition delim : bytes := [LF].

Definition body (r : ReadResult) (st : State) : Loop :=
  let st := doRead r st in
  let isEOF := length (rdata r) in
  (* if err != nil { log.Println(err) } *)
  let st := printErr r st in
  if Nat.eqb isEOF 0 then
    (* close(strChan); return *)
    Return (mkState (a st) (line st) (close (strChan st)) (console st) (reads st))
  else
    Continue (chunk delim st).

Definition getLinesChannel (f : Source) : State := loop body f init.

End FileReader.

(** ** experiments/go/httpgo/cmd/tcplistener/main.go *)
Module TcpListener.

Definition delim : bytes := [LF].

Definition sentinel : bytes := lit "EOF".

Definition body (r : ReadResult) (st : State) : Loop :=
  let st := doRead r st in
  let isEOF := length (rdata r) in
  (* if err != nil { fmt.Println(err) } *)
  let st := printErr r st in
  if Nat.eqb isEOF 0 then
    (* strChan <- "EOF"; close(strChan); return *)
    Return (mkState (a st) (line st) (close (send (strChan st) sentinel))
                    (console st) (reads st))
  else
    Continue (chunk delim st).

Definition getLinesChannel (f : Source) : State := loop body f init.

End TcpListener.

(** ** The goroutine-per-connection listener *)
Module TcpMulti.

Definition delim : bytes := [CR; LF].

Definition isNil (e : option error) : bool :=
  match e with None => true | Some _ => false end.

Definition body (r : ReadResult) (st : State) : Loop :=
  let st := doRead r st in
  let isEOF := length (rdata r) in
  if Nat.eqb isEOF 0 || negb (isNil (rerr r)) then
    (* if line != "" { strChan <- line }; return   -- the channel stays open *)
    match line st with
    | [] => Return st
    | _ :: _ =>
        Return (mkState (a st) (line st) (send (strChan st) (line st))
                        (console st) (reads st))
    end
  else
    Continue (chunk delim st).

Definition getLinesChannel (f : Source) : State := loop body f init.

End TcpMulti.

(** What the consumer of the channel receives. *)
Definition records (st : State) : list bytes := sent (strChan st).


(** The bytes a source hands over, in order. *)
Definition delivered (f : Source) : bytes := concat (map rdata f).

(** The records with one delimiter put back after each of them. *)
Definition reassemble (delim : bytes) (recs : list bytes) : bytes :=
  concat (map (fun r => r ++ delim) recs).

(** ** The loop over the scripted reads alone

    [feed body f st] runs the loop body over the reads of the script and
    stops there: [Continue st'] when the script is used up and the loop is
    about to read again, [Return st'] when the body has returned before. *)
Section Feed.
Variable body : ReadResult -> State -> Loop.

Fixpoint feed (f : Source) (st : State) : Loop :=
  match f with
  | [] => Continue st
  | r :: f' =>
      match body r st with
      | Continue st' => feed f' st'
      | Return st' => Return st'
      end
  end.
End Feed.

(** ** The file reader and its consumer as two goroutines

    The goroutine started by [getLinesChannel] of
    experiments/go/httpgo/main.go and the [range] loop of [main] that
    receives from the unbuffered channel, with every interleaving of their
    steps.  The producer is at the call of [f.Read], blocked in
    [strChan <- line], or has returned; the consumer waits for a value,
    prints the last value received, or has left its loop. *)
Module FileReaderSched.

Inductive Producer : Type :=
| AtRead (f : Source) (st : State)     (* about to call f.Read(a) *)
| AtSend (f : Source) (st : State)     (* blocked in strChan <- line *)
| Returned (st : State).               (* after close(strChan); return *)

Inductive Consumer : Type :=
| Receiving (got : list bytes)         (* at the head of for s := range *)
| Printing (got : list bytes)          (* in fmt.Println("read:", s) *)
| Finished (got : list bytes).         (* the range is over *)

Definition Config : Type := (Producer * Consumer)%type.

(** The values the consumer has received so far. *)
Definition received (c : Consumer) : list bytes :=
  match c with
  | Receiving got => got
  | Printing got => got
  | Finished got => got
  end.

(** The next result of [f.Read]: that of the script, or [(0, io.EOF)]. *)
Definition next (f : Source) : ReadResult * Source :=
  match f with
  | [] => (eofRead, [])
  | r :: f' => (r, f')
  end.

(** The value of [line] at [strChan <- line]. *)
Definition outgoing (st : State) : bytes :=
  line st ++ Join (firstn 1 (Split (a st) FileReader.delim)) [].

Inductive step : Config -> Config -> Prop :=
| read_eof : forall f st c r f' st1,
    next f = (r, f') ->
    st1 = printErr r (doRead r st) ->
    length (rdata r) = 0 ->
    step (AtRead f st, c)
         (Returned (mkState (a st1) (line st1) (close (strChan st1))
                            (console st1) (reads st1)), c)
| read_line : forall f st c r f' st1,
    next f = (r, f') ->
    st1 = printErr r (doRead r st) ->
    length (rdata r) <> 0 ->
    Contains (a st1) FileReader.delim = true ->
    step (AtRead f st, c) (AtSend f' st1, c)
| read_more : forall f st c r f' st1,
    next f = (r, f') ->
    st1 = printErr r (doRead r st) ->
    length (rdata r) <> 0 ->
    Contains (a st1) FileReader.delim = false ->
    step (AtRead f st, c)
         (AtRead f' (mkState (a st1) (line st1 ++ a st1) (strChan st1)
                             (console st1) (reads st1)), c)
| handover : forall f st got,
    (* the send and the receive happen together *)
    step (AtSend f st, Receiving got)
         (AtRead f (mkState (a st)
                            ([] ++ Join (skipn 1 (Split (a st) FileReader.delim)) [])
                            (send (strChan st) (outgoing st))
                            (console st) (reads st)),
          Printing (got ++ [outgoing st]))
| printed : forall p got,
    step (p, Printing got) (p, Receiving got)
| range_ends : forall st got,
    (* the channel is closed and nothing is pending *)
    step (Returned st, Receiving got) (Returned st, Finished got).

(** Any number of steps, in any order the scheduler picks. *)
Inductive reach : Config -> Config -> Prop :=
| reach_here : forall c, reach c c
| reach_step : forall c c' c'', step c c' -> reach c' c'' -> reach c c''.

Definition start (f : Source) : Config := (AtRead f init, Receiving []).

(** Both goroutines are done. *)
Definition terminal (c : Config) : Prop :=
  exists st got, c = (Returned st, Finished got).

(** Where the producer's loop ends when it is run to its end. *)
Definition finalOf (p : Producer) : State :=
  match p with
  | AtRead f st => loop FileReader.body f st
  | AtSend f st => loop FileReader.body f (chunk FileReader.delim st)
  | Returned st => st
  end.

(** The values the producer has handed over. *)
Definition sentBy (p : Producer) : list bytes :=
  match p with
  | AtRead _ st => records st
  | AtSend _ st => records st
  | Returned st => records st
  end.

(** What holds of every configuration a run from [start f] can reach. *)
Definition sound (target : State) (c : Config) : Prop :=
  finalOf (fst c) = target /\
  received (snd c) = sentBy (fst c) /\
  (forall f st, fst c = AtSend f st -> Contains (a st) FileReader.delim = true) /\
  (forall got, snd c = Finished got -> exists st, fst c = Returned st).

(** A bound on the number of steps left. *)
Definition fuelOf (c : Config) : nat :=
  match fst c with
  | AtRead f _ => 3 * length f + 1
  | AtSend f _ => 3 * length f + 3
  | Returned _ => 0
  end
  + match snd c with
    | Receiving _ => 1
    | Printing _ => 2
    | Finished _ => 0
    end.

End FileReaderSched.

(** ** Accept loops

    A listener is the script of the results of its successive [Accept]
    calls.  [conn] is [None] for Go's nil connection, which is what
    [net.Listener.Accept] returns together with an error.  A connection is
    the byte source read from it. *)

Record AcceptResult : Type := mkAccept { conn : option Source; aerr : option error }.

Definition Listener := list AcceptResult.

(** What the main goroutine writes. *)
Inductive Out : Type :=
| LogErr (e : error)        (* log.Println(err) *)
| Println (s : bytes).      (* fmt.Println(s) *)

(** The process either panics (a method is called on the nil connection) or
    is still alive when the script of the listener is used up. *)
Inductive Proc : Type :=
| Alive (out : list Out)
| Panicked (out : list Out).

Definition logAccept (r : AcceptResult) : list Out :=
  match aerr r with
  | Some e => [LogErr e]
  | None => []
  end.

Module TcpListenerMain.

(** Body of [for s := range getLinesChannel(conn)]. *)
Definition consume (s : bytes) : list Out :=
  (if list_eq_dec Byte.byte_eq_dec s TcpListener.sentinel
   then [Println (lit "connection closed!")] else [])
  ++ [Println s].

Fixpoint main (l : Listener) (out : list Out) : Proc :=
  match l with
  | [] => Alive out
  | r :: l' =>
      (* if err != nil { log.Println(err) } *)
      let out := out ++ logAccept r in
      let out := out ++ [Println (lit "connection accepted!")] in
      match conn r with
      | None => Panicked out      (* f.Read(a) on the nil connection *)
      | Some f =>
          let st := TcpListener.getLinesChannel f in
          main l' (out ++ flat_map consume (records st))
      end
  end.

End TcpListenerMain.

Module TcpMultiMain.

(** One goroutine started by [go func() { ... }()]. *)
Inductive Task : Type :=
| TPanic                        (* defer conn.Close() on the nil connection *)
| TBlocked (out : list Out)     (* waiting on the channel, which never closes *)
| TDone (out : list Out).       (* printed the closing notice, closed conn *)

Definition handler (c : option Source) : Task :=
  match c with
  | None => TPanic
  | Some f =>
      let st := TcpMulti.getLinesChannel f in
      let out := map Println (records st) in
      if closed (strChan st)
      then TDone (out ++ [Println (lit "connection closed!")])
      else TBlocked out
  end.

(** The accept loop: what it logs, and the goroutines it has started. *)
Fixpoint main (l : Listener) (out : list Out) (tasks : list Task)
  : list Out * list Task :=
  match l with
  | [] => (out, tasks)
  | r :: l' => main l' (out ++ logAccept r) (tasks ++ [handler (conn r)])
  end.

Definition isPanic (t : Task) : bool :=
  match t with TPanic => true | _ => false end.

(** A panic in any goroutine ends the process. *)
Definition crashed (p : list Out * list Task) : bool :=
  existsb isPanic (snd p).

End TcpMultiMain.

(** ** Projections and predicates used in the statements *)

(** The state a pass through the loop body leaves, whether the loop goes on
    or returns. *)
Definition outcome (l : Loop) : State :=
  match l with
  | Continue st => st
  | Return st => st
  end.

(** Neither the accumulator nor any record sent so far holds a line feed. *)
Definition lfFree (st : State) : Prop :=
  ~ In LF (line st) /\ Forall (fun r => ~ In LF r) (records st).

(** The channel has not been closed. *)
Definition stillOpen (st : State) : Prop := closed (strChan st) = false.

(** A read after which every variant goes on: it delivered bytes and no
    error. *)
Definition goodRead (r : ReadResult) : bool :=
  negb (Nat.eqb (length (rdata r)) 0) && TcpMulti.isNil (rerr r).

(** The state without what was written to the console. *)
Definition quiet (st : State) : State :=
  mkState (a st) (line st) (strChan st) [] (reads st).

(** A source whose read number [length pre] fails with [e]. *)
Definition failingAt (pre : Source) (d : bytes) (e : error) (rest : Source)
  : Source :=
  pre ++ mkRead d (Some e) :: rest.

(** The error-handling rule as the specification words it: the failing read
    is the last one, and what the consumer receives tells the failure from
    the end of the stream. *)
Definition endsAtError (getLines : Source -> State)
           (pre : Source) (d : bytes) (c : nat) (rest : Source) : Prop :=
  reads (getLines (failingAt pre d (ErrIO c) rest)) = S (length pre).

Definition errorReported (getLines : Source -> State)
           (pre : Source) (d : bytes) (c : nat) (rest : Source) : Prop :=
  strChan (getLines (failingAt pre d (ErrIO c) rest))
  <> strChan (getLines (failingAt pre d EOF rest)).

(** ** Sample sources *)

(** Two full reads, one line feed in each. *)
Definition twoLines : Source :=
  [ mkRead (lit "first" ++ [LF] ++ lit "se") None;
    mkRead (lit "cond" ++ [LF] ++ lit "xyz") None ].

(** The same six bytes in one read and in two. *)
Definition oneRead : Source :=
  [ mkRead (lit "ab" ++ [LF] ++ lit "cd" ++ [LF]) None ].

Definition twoReads : Source :=
  [ mkRead (lit "ab" ++ [LF]) None; mkRead (lit "cd" ++ [LF]) None ].

(** Two full reads with the CR LF delimiter cut between them. *)
Definition cutDelimiter : Source :=
  [ mkRead (lit "abcdefg" ++ [CR]) None; mkRead ([LF] ++ lit "hijklmn") None ].

(** A full read followed by two reads that fill the buffer only partly. *)
Definition shortReads : Source :=
  [ mkRead (lit "abcdefgh") None;
    mkRead (lit "i" ++ [LF]) None;
    mkRead (lit "jk" ++ [LF]) None ].

(** One full read holding four delimiters. *)
Definition fourLines : Source :=
  [ mkRead (lit "a" ++ [LF] ++ lit "b" ++ [LF] ++ lit "c" ++ [LF] ++ lit "d" ++ [LF])
           None ].

(** One full read without delimiter. *)
Definition fullRead : ReadResult := mkRead (lit "abcdefgh") None.

Definition noDelimiter : Source := [ fullRead ].

(** A read that delivers eight bytes together with an error, and the read
    that follows it. *)
Definition resetRead : bytes := lit "first" ++ [LF] ++ lit "se".

Definition laterRead : ReadResult := mkRead (lit "cond" ++ [LF] ++ lit "xyz") None.

(** ** [main] of experiments/go/httpgo/main.go

    [os.Open] either yields the file, read as a byte source, or an error.
    [fmt.Println("read:", s)] writes its two operands with a space between
    them.  A [range] over a channel ends when the channel is closed and is
    stuck otherwise. *)
Module FileReaderMain.

Inductive Opened : Type :=
| OpenOk (f : Source)
| OpenErr (e : error).

Inductive Exit : Type :=
| Exited (out : list Out)      (* main returned *)
| Stuck (out : list Out).      (* main waits on the channel for ever *)

Definition readLine (s : bytes) : Out := Println (lit "read: " ++ s).

Definition main (o : Opened) : Exit :=
  match o with
  | OpenErr e => Exited [LogErr e]       (* log.Println(err); return *)
  | OpenOk f =>
      let st := FileReader.getLinesChannel f in
      let out := map readLine (records st) in
      if closed (strChan st) then Exited out else Stuck out
  end.

End FileReaderMain.

(** ** The single-connection accept loop with connections that may stall

    [main] of experiments/go/httpgo/cmd/tcplistener/main.go again, for
    connections that may stay open without sending: when [stalls] is set,
    the [Read] that follows the scripted ones never returns, instead of
    returning [(0, io.EOF)].  The loop ranges over the channel of the
    connection before it calls [Accept] again. *)
Module TcpListenerStall.

Record Peer : Type := mkPeer { accepted : AcceptResult; stalls : bool }.

Inductive Run : Type :=
| Accepting (out : list Out)     (* script used up: blocked in Accept *)
| Crashed (out : list Out)       (* nil connection *)
| Waiting (out : list Out).      (* blocked in the range over a connection *)

Fixpoint main (l : list Peer) (out : list Out) : Run :=
  match l with
  | [] => Accepting out
  | p :: l' =>
      let r := accepted p in
      let out := out ++ logAccept r in
      let out := out ++ [Println (lit "connection accepted!")] in
      match conn r with
      | None => Crashed out
      | Some f =>
          match feed TcpListener.body f init with
          | Return st =>
              main l' (out ++ flat_map TcpListenerMain.consume (records st))
          | Continue st =>
              if stalls p then
                (* the reader is blocked in f.Read, the channel stays open *)
                Waiting (out ++ flat_map TcpListenerMain.consume (records st))
              else
                let st' := outcome (TcpListener.body eofRead st) in
                main l' (out ++ flat_map TcpListenerMain.consume (records st'))
          end
      end
  end.

End TcpListenerStall.

(** The read delivers at least one byte. *)
Definition deliversBytes (r : ReadResult) : bool :=
  negb (Nat.eqb (length (rdata r)) 0).

(** ** Further predicates used in the statements *)

(** The buffer still has its eight bytes. *)
Definition bufferKept (st : State) : Prop := length (a st) = bufSize.

(** Bytes sent so far plus bytes waiting in the accumulator. *)
Definition held (st : State) : nat :=
  length (concat (records st)) + length (line st).

(** The buffer is intact and at most eight bytes were taken per read. *)
Definition withinBudget (st : State) : Prop :=
  bufferKept st /\ held st <= bufSize * reads st.

(** Reads that fill the buffer, carry no error and hold no delimiter. *)
Definition plainReads (delim : bytes) (f : Source) : Prop :=
  Forall (fun r => length (rdata r) = bufSize /\ rerr r = None /\
                   Contains (rdata r) delim = false) f.

(** What is sent for a pending line at the end of the stream. *)
Definition flushed (l : bytes) : list bytes :=
  match l with
  | [] => []
  | _ :: _ => [l]
  end.

(** Every read fills the buffer. *)
Definition fullReads (f : Source) : Prop :=
  Forall (fun r => length (rdata r) = bufSize) f.

(** No read holds more than one line feed. *)
Definition oneLinePerRead (f : Source) : Prop :=
  Forall (fun r => count_occ Byte.byte_eq_dec (rdata r) LF <= 1) f.

(** The bytes of [s] other than [d]. *)
Definition without (d : byte) (s : bytes) : bytes :=
  filter (fun c => negb (Byte.eqb c d)) s.


(** The goroutine of a connection ran to its end. *)
Definition isDone (t : TcpMultiMain.Task) : bool :=
  match t with
  | TcpMultiMain.TDone _ => true
  | _ => false
  end.

(** What is written holds no line feed of its own. *)
Definition oneLine (o : Out) : bool :=
  match o with
  | LogErr _ => true
  | Println s => negb (Contains s [LF])
  end.

(** * Properties *)

(** ** Facts about [Index], [Contains], [Split] and [Join] *)

Section SingleByteSeparator.
Variable d : byte.

Lemma HasPrefix_single (s : bytes) :
  HasPrefix s [d] = true <-> exists s', s = d :: s'.
Proof.
  destruct s as [|c s']; cbn [HasPrefix].
  - split; [discriminate | intros [? ?]; discriminate].
  - rewrite andb_true_r. split.
    + intros H. apply Byte.byte_dec_bl in H. subst. now exists s'.
    + intros [t Ht]. injection Ht as -> _. apply Byte.byte_dec_lb. reflexivity.
Qed.

Lemma Index_single_None (s : bytes) :
  Index s [d] = None <-> ~ In d s.
Proof.
  induction s as [|c s IH].
  - simpl. intuition auto.
  - cbn [Index]. destruct (HasPrefix (c :: s) [d]) eqn:Hp.
    + apply HasPrefix_single in Hp. destruct Hp as [t Ht].
      injection Ht as -> _. split; [discriminate|]. intros H. exfalso.
      apply H. now left.
    + assert (Hc : c <> d).
      { intros ->. assert (HasPrefix (d :: s) [d] = true) as E
          by (apply HasPrefix_single; now exists s).
        congruence. }
      destruct (Index s [d]) as [m|] eqn:Hi; simpl.
      * split; [discriminate|]. intros H. exfalso.
        destruct IH as [_ IH]. assert (Some m = None) by (apply IH; intros Hin; apply H; now right).
        discriminate.
      * split; [|reflexivity]. intros _ [Heq|Hin]; [congruence|].
        destruct IH as [IH _]. now apply IH.
Qed.

Lemma Contains_single_false (s : bytes) :
  Contains s [d] = false <-> ~ In d s.
Proof.
  unfold Contains. rewrite <- Index_single_None.
  destruct (Index s [d]); split; congruence.
Qed.

(** Before the first occurrence there is none, and the occurrence lies
    inside the string. *)
Lemma Index_single_Some (s : bytes) (m : nat) :
  Index s [d] = Some m -> ~ In d (firstn m s) /\ m < length s.
Proof.
  revert m. induction s as [|c s IH]; intros m.
  - simpl. discriminate.
  - cbn [Index]. destruct (HasPrefix (c :: s) [d]) eqn:Hp.
    + intros [= <-]. simpl. split; [tauto | lia].
    + assert (Hc : c <> d).
      { intros ->. assert (HasPrefix (d :: s) [d] = true) as E
          by (apply HasPrefix_single; now exists s).
        congruence. }
      destruct (Index s [d]) as [k|] eqn:Hi; simpl; [|discriminate].
      intros [= <-]. destruct (IH k eq_refl) as [Hn Hl]. simpl. split; [|lia].
      intros [Heq|Hin]; [congruence | tauto].
Qed.

Lemma genSplit_single_free (n : nat) :
  forall s : bytes, length s <= n -> Forall (fun p => ~ In d p) (genSplit n s [d]).
Proof.
  induction n as [|n IH]; intros s Hlen.
  - destruct s; [|simpl in Hlen; lia]. simpl. constructor; [tauto | constructor].
  - simpl. destruct (Index s [d]) as [m|] eqn:Hi.
    + destruct (Index_single_Some s Hi) as [Hfree Hm].
      constructor; [exact Hfree|]. apply IH.
      rewrite length_skipn. simpl. lia.
    + constructor; [|constructor]. now apply Index_single_None.
Qed.

Lemma Split_single_free (s : bytes) :
  Forall (fun p => ~ In d p) (Split s [d]).
Proof. unfold Split. apply genSplit_single_free. lia. Qed.

End SingleByteSeparator.

Lemma Join_nil_concat (elems : list bytes) : Join elems [] = concat elems.
Proof.
  induction elems as [|e [|e' elems'] IH]; simpl in *.
  - reflexivity.
  - now rewrite app_nil_r.
  - now rewrite IH.
Qed.

Lemma concat_free (d : byte) (l : list bytes) :
  Forall (fun p => ~ In d p) l -> ~ In d (concat l).
Proof.
  induction 1 as [|p l Hp _ IH]; simpl; [tauto|].
  rewrite in_app_iff. tauto.
Qed.

Lemma Forall_firstn_bytes (P : bytes -> Prop) (k : nat) (l : list bytes) :
  Forall P l -> Forall P (firstn k l).
Proof.
  intros H. revert k. induction H; intros [|k]; simpl; constructor; auto.
Qed.

Lemma Forall_skipn_bytes (P : bytes -> Prop) (k : nat) (l : list bytes) :
  Forall P l -> Forall P (skipn k l).
Proof.
  intros H. revert k. induction H; intros [|k]; simpl; auto.
Qed.

(** ** Loop invariants *)

Lemma loop_invariant (body : ReadResult -> State -> Loop) (P : State -> Prop) :
  (forall r st, P st -> P (outcome (body r st))) ->
  forall f st, P st -> P (loop body f st).
Proof.
  intros Hbody f. induction f as [|r f IH]; intros st Hst; simpl.
  - specialize (Hbody eofRead st Hst). now destruct (body eofRead st).
  - specialize (Hbody r st Hst). destruct (body r st); simpl in Hbody; auto.
Qed.

Lemma lfFree_init : lfFree init.
Proof. split; simpl; [tauto | constructor]. Qed.

Lemma lfFree_input (r : ReadResult) (st : State) :
  lfFree st -> lfFree (printErr r (doRead r st)).
Proof.
  unfold lfFree, records, printErr, doRead. destruct (rerr r); simpl; auto.
Qed.

Lemma lfFree_chunk (st : State) : lfFree st -> lfFree (chunk [LF] st).
Proof.
  intros [Hline Hrecs]. unfold chunk.
  destruct (Contains (a st) [LF]) eqn:Hc; unfold lfFree, records;
    cbn [line strChan sent send app].
  - pose proof (Split_single_free LF (a st)) as Hs.
    rewrite !Join_nil_concat. split.
    + apply concat_free. now apply Forall_skipn_bytes.
    + apply Forall_app. split; [exact Hrecs|].
      constructor; [|constructor]. rewrite in_app_iff.
      intros [H|H]; [tauto|].
      revert H. apply concat_free. now apply Forall_firstn_bytes.
  - apply Contains_single_false in Hc. split; [|exact Hrecs].
    rewrite in_app_iff. tauto.
Qed.

Lemma lfFree_FileReader_body (r : ReadResult) (st : State) :
  lfFree st -> lfFree (outcome (FileReader.body r st)).
Proof.
  intros H. unfold FileReader.body.
  pose proof (lfFree_input r H) as H1.
  destruct (Nat.eqb (length (rdata r)) 0); simpl.
  - exact H1.
  - now apply lfFree_chunk.
Qed.

Lemma lfFree_TcpListener_body (r : ReadResult) (st : State) :
  lfFree st -> lfFree (outcome (TcpListener.body r st)).
Proof.
  intros H. unfold TcpListener.body.
  pose proof (lfFree_input r H) as [H1 H2].
  destruct (Nat.eqb (length (rdata r)) 0); simpl.
  - split; [exact H1|]. unfold records; simpl. apply Forall_app. split; [exact H2|].
    constructor; [|constructor]. vm_compute. intuition discriminate.
  - apply lfFree_chunk. now split.
Qed.

Lemma Forall_free_Contains (l : list bytes) :
  Forall (fun r => ~ In LF r) l -> Forall (fun r => Contains r [LF] = false) l.
Proof.
  apply Forall_impl. intros r. apply Contains_single_false.
Qed.

(** C10: in the two variants that split on a line feed, no record received
    from [getLinesChannel] contains a line feed, and neither does the
    accumulator the loop is left with; the property is kept by every pass
    through the loop body. *)
Theorem C10_records_contain_no_newline :
  forall f : Source,
    (Forall (fun r => Contains r [LF] = false)
            (records (FileReader.getLinesChannel f)) /\
     Contains (line (FileReader.getLinesChannel f)) [LF] = false) /\
    (Forall (fun r => Contains r [LF] = false)
            (records (TcpListener.getLinesChannel f)) /\
     Contains (line (TcpListener.getLinesChannel f)) [LF] = false).
Proof.
  intros f. split.
  - destruct (loop_invariant FileReader.body lfFree lfFree_FileReader_body f init lfFree_init)
      as [Hl Hr].
    split; [now apply Forall_free_Contains | now apply Contains_single_false].
  - destruct (loop_invariant TcpListener.body lfFree lfFree_TcpListener_body f init lfFree_init)
      as [Hl Hr].
    split; [now apply Forall_free_Contains | now apply Contains_single_false].
Qed.

(** ** Every schedule of the file reader and its consumer *)

Section Schedules.
Import FileReaderSched.

Lemma records_input (r : ReadResult) (st : State) :
  records (printErr r (doRead r st)) = records st.
Proof. unfold printErr, records. destruct (rerr r); reflexivity. Qed.

Lemma next_cons (f f' : Source) (r : ReadResult) :
  next f = (r, f') -> length (rdata r) <> 0 -> f = r :: f'.
Proof.
  destruct f as [|r0 f0]; simpl; intros [= <- <-] Hn.
  - simpl in Hn. contradiction.
  - reflexivity.
Qed.

(** One pass of the loop, in terms of the next read. *)
Lemma loop_next (f f' : Source) (r : ReadResult) (st : State) :
  next f = (r, f') ->
  loop FileReader.body f st
  = if Nat.eqb (length (rdata r)) 0
    then mkState (a (printErr r (doRead r st))) (line (printErr r (doRead r st)))
                 (close (strChan (printErr r (doRead r st))))
                 (console (printErr r (doRead r st)))
                 (reads (printErr r (doRead r st)))
    else loop FileReader.body f' (chunk FileReader.delim (printErr r (doRead r st))).
Proof.
  destruct f as [|r0 f0]; simpl; intros [= <- <-].
  - reflexivity.
  - unfold FileReader.body. destruct (Nat.eqb (length (rdata r0)) 0); reflexivity.
Qed.

Lemma chunk_without (st : State) :
  Contains (a st) FileReader.delim = false ->
  chunk FileReader.delim st
  = mkState (a st) (line st ++ a st) (strChan st) (console st) (reads st).
Proof. intros H. unfold chunk. now rewrite H. Qed.

Lemma chunk_with (st : State) :
  Contains (a st) FileReader.delim = true ->
  chunk FileReader.delim st
  = mkState (a st) ([] ++ Join (skipn 1 (Split (a st) FileReader.delim)) [])
            (send (strChan st) (outgoing st)) (console st) (reads st).
Proof. intros H. unfold chunk, outgoing. now rewrite H. Qed.

Lemma step_sound (target : State) (c c' : Config) :
  sound target c -> step c c' -> sound target c'.
Proof.
  intros (Hfin & Hrec & Hsend & Hdone) Hstep.
  inversion Hstep as [f st k r f' st1 Hn Hst Hz
                     |f st k r f' st1 Hn Hst Hnz Hc
                     |f st k r f' st1 Hn Hst Hnz Hc
                     |f st got
                     |p got
                     |st got]; subst c c'; try subst st1; simpl in *;
    unfold sound; cbn [fst snd finalOf sentBy received].
  - rewrite (@loop_next f f' r st Hn), Hz in Hfin. simpl in Hfin.
    repeat split.
    + exact Hfin.
    + unfold records in *. simpl. rewrite Hrec.
      symmetry. apply (records_input r st).
    + intros ? ? [=].
    + intros got Hk. destruct (Hdone got Hk) as [? [=]].
  - rewrite (@loop_next f f' r st Hn) in Hfin.
    apply Nat.eqb_neq in Hnz. rewrite Hnz in Hfin.
    repeat split.
    + exact Hfin.
    + rewrite Hrec. symmetry. apply records_input.
    + intros ? ? [= <- <-]. exact Hc.
    + intros got Hk. destruct (Hdone got Hk) as [? [=]].
  - rewrite (@loop_next f f' r st Hn) in Hfin.
    apply Nat.eqb_neq in Hnz. rewrite Hnz in Hfin.
    rewrite (@chunk_without _ Hc) in Hfin.
    repeat split.
    + exact Hfin.
    + unfold records in *. simpl. rewrite Hrec.
      symmetry. apply (records_input r st).
    + intros ? ? [=].
    + intros got Hk. destruct (Hdone got Hk) as [? [=]].
  - rewrite (@chunk_with _ (Hsend f st eq_refl)) in Hfin.
    repeat split.
    + exact Hfin.
    + unfold records in *. simpl. now rewrite Hrec.
    + intros ? ? [=].
    + intros ? [=].
  - repeat split.
    + exact Hfin.
    + exact Hrec.
    + exact Hsend.
    + intros ? [=].
  - repeat split.
    + exact Hfin.
    + exact Hrec.
    + intros ? ? [=].
    + intros _ _. now exists st.
Qed.

Lemma reach_sound (target : State) (c c' : Config) :
  reach c c' -> sound target c -> sound target c'.
Proof.
  induction 1 as [|c c' c'' Hstep _ IH]; intros Hs; [exact Hs|].
  apply IH. eapply step_sound; eassumption.
Qed.

Lemma start_sound (f : Source) :
  sound (FileReader.getLinesChannel f) (start f).
Proof.
  unfold sound, start. simpl. repeat split.
  - intros ? ? [=].
  - intros ? [=].
Qed.

Lemma reach_trans (c c' c'' : Config) :
  reach c c' -> reach c' c'' -> reach c c''.
Proof.
  induction 1 as [|x y z Hstep _ IH]; intros H; [exact H|].
  eapply reach_step; [exact Hstep | now apply IH].
Qed.

(** Every step uses up fuel: no schedule runs for ever. *)
Lemma step_fuel (c c' : Config) : step c c' -> fuelOf c' < fuelOf c.
Proof.
  intros Hstep.
  inversion Hstep as [f st k r f' st1 Hn Hst Hz
                     |f st k r f' st1 Hn Hst Hnz Hc
                     |f st k r f' st1 Hn Hst Hnz Hc
                     |f st got
                     |p got
                     |st got]; subst; unfold fuelOf; simpl.
  - lia.
  - rewrite (@next_cons f f' r Hn Hnz). simpl. lia.
  - rewrite (@next_cons f f' r Hn Hnz). simpl. lia.
  - lia.
  - lia.
  - lia.
Qed.

(** No schedule gets stuck before both goroutines are done. *)
Lemma sound_progress (target : State) (c : Config) :
  sound target c -> terminal c \/ exists c', step c c'.
Proof.
  intros (_ & _ & _ & Hdone). destruct c as [[f st|f st|st] k]; simpl in *.
  - right. destruct (next f) as [r f'] eqn:Hn.
    destruct (Nat.eqb (length (rdata r)) 0) eqn:Hz.
    + apply Nat.eqb_eq in Hz. eexists. eapply read_eof; [exact Hn | reflexivity | exact Hz].
    + apply Nat.eqb_neq in Hz.
      destruct (Contains (a (printErr r (doRead r st))) FileReader.delim) eqn:Hc.
      * eexists. eapply read_line; [exact Hn | reflexivity | exact Hz | exact Hc].
      * eexists. eapply read_more; [exact Hn | reflexivity | exact Hz | exact Hc].
  - right. destruct k as [got|got|got].
    + eexists. apply handover.
    + eexists. apply printed.
    + destruct (Hdone got eq_refl) as [? [=]].
  - destruct k as [got|got|got].
    + right. eexists. apply range_ends.
    + right. eexists. apply printed.
    + left. now exists st, got.
Qed.

(** From every configuration a run can reach, every way of going on ends,
    and some way ends with both goroutines done. *)
Lemma every_schedule_completes (f : Source) (c : Config) :
  reach (start f) c -> exists c', reach c c' /\ terminal c'.
Proof.
  intros Hreach.
  pose proof (reach_sound Hreach (start_sound f)) as Hs. clear Hreach.
  remember (fuelOf c) as n eqn:Hn.
  revert c Hs Hn. induction n as [n IH] using lt_wf_ind. intros c Hs Hn.
  destruct (sound_progress Hs) as [Hterm|[c' Hstep]].
  - exists c. split; [apply reach_here | exact Hterm].
  - pose proof (step_fuel Hstep) as Hlt.
    destruct (IH (fuelOf c') ltac:(lia) c' (step_sound Hs Hstep) eq_refl)
      as (c'' & Hr & Ht).
    exists c''. split; [eapply reach_step; eassumption | exact Ht].
Qed.

(** C9: the reader is deterministic.  Whatever the order in which the
    scheduler runs the reading goroutine and the consumer, two runs over the
    same sequence of read results that have come to their end have handed
    the consumer the same line records, namely those computed by
    [FileReader.getLinesChannel]. *)
Theorem C9_same_reads_same_records :
  forall (f : Source) (c1 c2 : Config),
    reach (start f) c1 -> reach (start f) c2 ->
    terminal c1 -> terminal c2 ->
    received (snd c1) = received (snd c2) /\
    received (snd c1) = records (FileReader.getLinesChannel f).
Proof.
  assert (Hone : forall f c, reach (start f) c -> terminal c ->
                   received (snd c) = records (FileReader.getLinesChannel f)).
  { intros f c Hreach (st & got & ->).
    destruct (reach_sound Hreach (start_sound f)) as (Hfin & Hrec & _).
    simpl in *. now rewrite Hrec, Hfin. }
  intros f c1 c2 H1 H2 T1 T2.
  rewrite (Hone f c1 H1 T1), (Hone f c2 H2 T2). split; reflexivity.
Qed.

(** One step of a run, the consumer going first when it can. *)
Ltac consumer_first :=
  eapply reach_step;
  [ first [ apply printed
          | apply range_ends
          | apply handover
          | eapply read_line; [reflexivity | reflexivity | discriminate | reflexivity]
          | eapply read_more; [reflexivity | reflexivity | discriminate | reflexivity]
          | eapply read_eof; [reflexivity | reflexivity | reflexivity] ] | ].

(** One step of a run, the producer going first when it can. *)
Ltac producer_first :=
  eapply reach_step;
  [ first [ eapply read_line; [reflexivity | reflexivity | discriminate | reflexivity]
          | eapply read_more; [reflexivity | reflexivity | discriminate | reflexivity]
          | eapply read_eof; [reflexivity | reflexivity | reflexivity]
          | apply handover
          | apply printed
          | apply range_ends ] | ].

Lemma C9_same_reads_same_records_witness :
  reach (start twoLines)
        (Returned (FileReader.getLinesChannel twoLines),
         Finished [lit "first"; lit "second"]) /\
  terminal (Returned (FileReader.getLinesChannel twoLines),
            Finished [lit "first"; lit "second"]) /\
  received (snd (Returned (FileReader.getLinesChannel twoLines),
                 Finished [lit "first"; lit "second"]))
  = records (FileReader.getLinesChannel twoLines).
Proof.
  assert (Hc : reach (start twoLines)
                     (Returned (FileReader.getLinesChannel twoLines),
                      Finished [lit "first"; lit "second"]))
    by (unfold start; repeat consumer_first; apply reach_here).
  assert (Hp : reach (start twoLines)
                     (Returned (FileReader.getLinesChannel twoLines),
                      Finished [lit "first"; lit "second"]))
    by (unfold start; repeat producer_first; apply reach_here).
  assert (Ht : terminal (Returned (FileReader.getLinesChannel twoLines),
                         Finished [lit "first"; lit "second"]))
    by (eexists; eexists; reflexivity).
  split; [exact Hc|]. split; [exact Ht|].
  exact (proj2 (C9_same_reads_same_records Hc Hp Ht Ht)).
Defined.

End Schedules.

(** ** How the input is cut into reads *)

(** C1: the records depend on how the source cuts the input into reads.
    The same six bytes give one record when they arrive in one read and two
    records, the second one starting with five stale NUL bytes of the buffer,
    when they arrive in two.  With the CR LF delimiter cut between two reads,
    no delimiter is seen: both lines arrive as one record that still holds
    the delimiter. *)
Theorem C1_records_depend_on_chunking :
  delivered oneRead = delivered twoReads /\
  wf_source oneRead /\ wf_source twoReads /\
  records (FileReader.getLinesChannel oneRead) = [lit "ab"] /\
  records (FileReader.getLinesChannel twoReads)
  = [lit "ab"; repeat NUL 5 ++ lit "cd"] /\
  records (TcpMulti.getLinesChannel cutDelimiter)
  = [lit "abcdefg" ++ [CR; LF] ++ lit "hijklmn"].
Proof.
  repeat split; try reflexivity; repeat constructor.
Qed.

(** ** Bytes received against bytes delivered *)

(** C3: bytes are duplicated and dropped.  After a read that fills only
    part of the buffer the whole buffer is appended, so bytes of an earlier
    read come back ([shortReads]: "cdefgh" is received twice); the pieces
    after the first delimiter of a chunk are glued together and what is
    left at end-of-stream is not sent ([fourLines]: only "a" arrives). *)
Theorem C3_bytes_duplicated_and_dropped :
  (wf_source shortReads /\
   delivered shortReads = lit "abcdefghi" ++ [LF] ++ lit "jk" ++ [LF] /\
   records (FileReader.getLinesChannel shortReads)
   = [lit "abcdefghi"; lit "cdefghjk"] /\
   reassemble [LF] (records (FileReader.getLinesChannel shortReads))
   <> delivered shortReads) /\
  (wf_source fourLines /\
   reassemble [LF] (records (FileReader.getLinesChannel fourLines))
   = lit "a" ++ [LF] /\
   reassemble [LF] (records (FileReader.getLinesChannel fourLines))
   <> delivered fourLines).
Proof.
  repeat split; try reflexivity; try (repeat constructor); try discriminate.
Qed.

(** ** Several delimiters in one chunk *)

Lemma chunk_sends_at_most_one (delim : bytes) (st : State) :
  length (records (chunk delim st)) <= S (length (records st)).
Proof.
  unfold chunk, records. destruct (Contains (a st) delim); simpl.
  - rewrite length_app. simpl. lia.
  - lia.
Qed.

(** C4: a chunk yields at most one record, however many delimiters it holds.
    One read of "a\nb\nc\nd\n" sends the single record "a"; the other three
    lines are joined into the accumulator "bcd". *)
Theorem C4_one_record_per_chunk :
  (forall (delim : bytes) (st : State),
      length (records (chunk delim st)) <= S (length (records st))) /\
  records (FileReader.getLinesChannel fourLines) = [lit "a"] /\
  line (FileReader.getLinesChannel fourLines) = lit "bcd" /\
  Split (delivered fourLines) [LF] = [lit "a"; lit "b"; lit "c"; lit "d"; []].
Proof.
  split; [exact chunk_sends_at_most_one|]. repeat split; reflexivity.
Qed.

(** ** End of stream *)

(** The sibling loop of the multi-connection listener sends what is left. *)
Lemma TcpMulti_flushes (st : State) :
  records (outcome (TcpMulti.body eofRead st))
  = records st ++ match line st with [] => [] | _ :: _ => [line st] end.
Proof.
  unfold TcpMulti.body, records. simpl.
  destruct (line st); simpl; [now rewrite app_nil_r | reflexivity].
Qed.

(** C5: the file reader does not send what is left in the accumulator when
    the stream ends.  The end-of-stream pass of its loop sends nothing, so
    an input "abcdefgh" with no delimiter yields no record at all, although
    the accumulator holds the eight bytes when the channel is closed. *)
Theorem C5_file_reader_drops_residual :
  (forall st : State,
      records (outcome (FileReader.body eofRead st)) = records st) /\
  records (FileReader.getLinesChannel noDelimiter) = [] /\
  line (FileReader.getLinesChannel noDelimiter) = lit "abcdefgh" /\
  closed (strChan (FileReader.getLinesChannel noDelimiter)) = true /\
  records (TcpMulti.getLinesChannel noDelimiter) = [lit "abcdefgh"].
Proof.
  repeat split; reflexivity.
Qed.

(** ** Closing the channel *)

Lemma FileReader_closes (f : Source) :
  forall st, closed (strChan (loop FileReader.body f st)) = true.
Proof.
  induction f as [|r f IH]; intros st.
  - reflexivity.
  - cbn [loop]. unfold FileReader.body.
    destruct (Nat.eqb (length (rdata r)) 0); [reflexivity | apply IH].
Qed.

Lemma stillOpen_TcpMulti_body (r : ReadResult) (st : State) :
  stillOpen st -> stillOpen (outcome (TcpMulti.body r st)).
Proof.
  unfold stillOpen, TcpMulti.body. intros H.
  destruct (Nat.eqb (length (rdata r)) 0 || negb (TcpMulti.isNil (rerr r))).
  - simpl. destruct (line st); simpl; exact H.
  - unfold chunk. simpl. destruct (Contains _ _); simpl; exact H.
Qed.

(** C6: the loop of the multi-connection listener returns without closing
    its channel, whatever the source: after the last record the channel is
    still open, so a [range] over it never ends.  The file reader closes
    its channel on every source. *)
Theorem C6_multi_reader_never_closes :
  forall f : Source,
    closed (strChan (TcpMulti.getLinesChannel f)) = false /\
    closed (strChan (FileReader.getLinesChannel f)) = true.
Proof.
  intros f. split.
  - apply (loop_invariant TcpMulti.body stillOpen stillOpen_TcpMulti_body f init).
    reflexivity.
  - apply FileReader_closes.
Qed.

(** ** Accept errors *)

Lemma TcpListenerMain_nil_conn (pre post : Listener) (e : option error) :
  forall out, exists out',
      TcpListenerMain.main (pre ++ mkAccept None e :: post) out = Panicked out'.
Proof.
  induction pre as [|r pre IH]; intros out.
  - simpl. eexists. reflexivity.
  - simpl. destruct (conn r).
    + apply IH.
    + eexists. reflexivity.
Qed.

Lemma TcpMultiMain_tasks (l : Listener) :
  forall out tasks,
    snd (TcpMultiMain.main l out tasks)
    = tasks ++ map (fun r => TcpMultiMain.handler (conn r)) l.
Proof.
  induction l as [|r l IH]; intros out tasks; simpl.
  - now rewrite app_nil_r.
  - rewrite IH, <- app_assoc. reflexivity.
Qed.

(** C7: an accept error is logged, but the loop body goes on with the nil
    connection instead of starting the next iteration.  In both listeners
    the process then panics: wherever in the script [Accept] returns an
    error and no connection, the single-connection listener ends in
    [Panicked] and the multi-connection listener has started a goroutine
    that panics.  A listener whose first [Accept] fails logs the error,
    prints the acceptance notice and panics. *)
Theorem C7_accept_error_panics :
  forall (pre post : Listener) (e : error),
    (exists out,
        TcpListenerMain.main (pre ++ mkAccept None (Some e) :: post) []
        = Panicked out) /\
    TcpMultiMain.crashed
      (TcpMultiMain.main (pre ++ mkAccept None (Some e) :: post) [] []) = true /\
    TcpListenerMain.main [mkAccept None (Some e)] []
    = Panicked [LogErr e; Println (lit "connection accepted!")].
Proof.
  intros pre post e. split; [|split].
  - apply TcpListenerMain_nil_conn.
  - unfold TcpMultiMain.crashed. rewrite TcpMultiMain_tasks. simpl.
    rewrite map_app, existsb_app. simpl. apply orb_true_r.
  - reflexivity.
Qed.

(** ** Read errors *)

Lemma quiet_chunk (delim : bytes) (st st' : State) :
  quiet st = quiet st' -> quiet (chunk delim st) = quiet (chunk delim st').
Proof.
  destruct st, st'. unfold quiet, chunk. simpl. intros [= -> -> -> ->].
  destruct (Contains _ _); reflexivity.
Qed.

Lemma quiet_input (r r' : ReadResult) (st st' : State) :
  rdata r = rdata r' -> quiet st = quiet st' ->
  quiet (printErr r (doRead r st)) = quiet (printErr r' (doRead r' st')).
Proof.
  destruct st, st'. unfold quiet, printErr, doRead, fill. simpl.
  intros -> [= -> -> -> ->]. destruct (rerr r), (rerr r'); reflexivity.
Qed.

(** The file reader sends the same whatever error values the reads carry. *)
Lemma FileReader_ignores_errors (f f' : Source) :
  Forall2 (fun r r' => rdata r = rdata r') f f' ->
  forall st st', quiet st = quiet st' ->
    quiet (loop FileReader.body f st) = quiet (loop FileReader.body f' st').
Proof.
  induction 1 as [|r r' f f' Hr _ IH]; intros st st' Hq.
  - simpl. pose proof (quiet_input eofRead eofRead eq_refl Hq) as H.
    unfold quiet in *. simpl in *. now injection H as -> -> -> ->.
  - cbn [loop]. unfold FileReader.body. rewrite <- Hr.
    pose proof (quiet_input r r' Hr Hq) as H.
    destruct (Nat.eqb (length (rdata r)) 0).
    + unfold quiet in *. simpl in *. now injection H as -> -> -> ->.
    + apply IH. now apply quiet_chunk.
Qed.

Lemma console_grows_chunk (delim : bytes) (st : State) :
  console (chunk delim st) = console st.
Proof. unfold chunk. destruct (Contains _ _); reflexivity. Qed.

Lemma FileReader_console_kept (x : error) (f : Source) :
  forall st, In x (console st) -> In x (console (loop FileReader.body f st)).
Proof.
  induction f as [|r f IH]; intros st Hin.
  - simpl. apply in_or_app. now left.
  - cbn [loop]. unfold FileReader.body.
    assert (H1 : In x (console (printErr r (doRead r st)))).
    { unfold printErr. destruct (rerr r); simpl; [apply in_or_app; now left | exact Hin]. }
    destruct (Nat.eqb (length (rdata r)) 0); [exact H1|].
    apply IH. now rewrite console_grows_chunk.
Qed.

Lemma FileReader_logs_error (pre rest : Source) (d : bytes) (e : error) :
  forallb goodRead pre = true ->
  forall st,
    In e (console (loop FileReader.body (pre ++ mkRead d (Some e) :: rest) st)).
Proof.
  induction pre as [|r pre IH]; intros Hgood st.
  - cbn [app loop]. unfold FileReader.body.
    assert (H1 : In e (console (printErr (mkRead d (Some e))
                                         (doRead (mkRead d (Some e)) st)))).
    { simpl. apply in_or_app. right. now left. }
    destruct (Nat.eqb _ 0); [exact H1|].
    apply FileReader_console_kept. now rewrite console_grows_chunk.
  - simpl in Hgood. apply andb_true_iff in Hgood. destruct Hgood as [Hr Hgood].
    unfold goodRead in Hr. apply andb_true_iff in Hr. destruct Hr as [Hn _].
    cbn [app loop]. unfold FileReader.body.
    destruct (Nat.eqb (length (rdata r)) 0); [discriminate|].
    now apply IH.
Qed.

(** The multi-connection reader looks only at whether there is an error. *)
Lemma TcpMulti_body_error_value (d : bytes) (e e' : error) (st : State) :
  TcpMulti.body (mkRead d (Some e)) st = TcpMulti.body (mkRead d (Some e')) st.
Proof. reflexivity. Qed.

Lemma TcpMulti_error_value (pre rest : Source) (d : bytes) (e e' : error) :
  forall st,
    loop TcpMulti.body (pre ++ mkRead d (Some e) :: rest) st
    = loop TcpMulti.body (pre ++ mkRead d (Some e') :: rest) st.
Proof.
  induction pre as [|r pre IH]; intros st.
  - cbn [app loop]. now rewrite (TcpMulti_body_error_value d e e').
  - cbn [app loop]. destruct (TcpMulti.body r st); [apply IH | reflexivity].
Qed.

Lemma TcpMulti_stops_at_error (pre rest : Source) (d : bytes) (e : error) :
  forallb goodRead pre = true ->
  forall st,
    reads (loop TcpMulti.body (pre ++ mkRead d (Some e) :: rest) st)
    = S (length pre) + reads st.
Proof.
  induction pre as [|r pre IH]; intros Hgood st.
  - cbn [app loop]. unfold TcpMulti.body. simpl.
    rewrite orb_true_r. destruct (line st); reflexivity.
  - simpl in Hgood. apply andb_true_iff in Hgood. destruct Hgood as [Hr Hgood].
    unfold goodRead in Hr. apply andb_true_iff in Hr. destruct Hr as [Hn He].
    cbn [app loop]. unfold TcpMulti.body.
    rewrite He. apply negb_true_iff in Hn. rewrite Hn. simpl.
    rewrite (IH Hgood). unfold chunk. simpl.
    destruct (Contains _ _); simpl; lia.
Qed.

Lemma same_data_refl (f : Source) :
  Forall2 (fun r r' => rdata r = rdata r') f f.
Proof. induction f; constructor; auto. Qed.

(** C2, as stated, fails.  The file reader logs the error of the first read
    and reads on: it performs three reads and sends a record made of bytes
    read after the failure.  In both variants the consumer receives the same
    whether that read failed or reported the end of the stream. *)
Lemma C2_error_swallowed :
  ~ endsAtError FileReader.getLinesChannel [] resetRead 104 [laterRead] /\
  reads (FileReader.getLinesChannel (failingAt [] resetRead (ErrIO 104) [laterRead])) = 3 /\
  records (FileReader.getLinesChannel (failingAt [] resetRead (ErrIO 104) [laterRead]))
  = [lit "first"; lit "second"] /\
  ~ errorReported FileReader.getLinesChannel [] resetRead 104 [laterRead] /\
  ~ errorReported TcpMulti.getLinesChannel [] resetRead 104 [laterRead].
Proof.
  unfold endsAtError, errorReported. repeat split.
  - vm_compute. discriminate.
  - intros H. apply H. reflexivity.
  - intros H. apply H. reflexivity.
Qed.

(** The loop over a script that goes on after its first reads. *)
Lemma loop_app (body : ReadResult -> State -> Loop) (pre f : Source) :
  forall st,
    loop body (pre ++ f) st
    = match feed body pre st with
      | Continue st' => loop body f st'
      | Return st' => st'
      end.
Proof.
  induction pre as [|r pre IH]; intros st.
  - reflexivity.
  - cbn [app loop feed]. destruct (body r st); [apply IH | reflexivity].
Qed.

Lemma feed_good_TcpMulti (pre : Source) :
  forallb goodRead pre = true ->
  forall st, feed TcpMulti.body pre st
             = Continue (outcome (feed TcpMulti.body pre st)).
Proof.
  induction pre as [|r pre IH]; intros Hgood st.
  - reflexivity.
  - simpl in Hgood. apply andb_true_iff in Hgood. destruct Hgood as [Hr Hgood].
    unfold goodRead in Hr. apply andb_true_iff in Hr. destruct Hr as [Hn He].
    apply negb_true_iff in Hn.
    cbn [feed]. unfold TcpMulti.body. rewrite He, Hn. cbn [orb negb].
    now apply IH.
Qed.

Lemma feed_good_FileReader (pre : Source) :
  forallb goodRead pre = true ->
  forall st, exists st',
      feed FileReader.body pre st = Continue st' /\
      reads st' = length pre + reads st.
Proof.
  induction pre as [|r pre IH]; intros Hgood st.
  - exists st. split; reflexivity.
  - simpl in Hgood. apply andb_true_iff in Hgood. destruct Hgood as [Hr Hgood].
    unfold goodRead in Hr. apply andb_true_iff in Hr. destruct Hr as [Hn _].
    apply negb_true_iff in Hn.
    cbn [feed]. unfold FileReader.body. rewrite Hn.
    destruct (IH Hgood (chunk FileReader.delim (printErr r (doRead r st))))
      as (st' & Hfeed & Hreads).
    exists st'. split; [exact Hfeed|]. rewrite Hreads.
    assert (Hk : reads (chunk FileReader.delim (printErr r (doRead r st)))
                 = S (reads st)).
    { unfold chunk, printErr.
      destruct (Contains _ _); destruct (rerr r); reflexivity. }
    rewrite Hk. simpl. lia.
Qed.

(** C2, amended: a read error never reaches the consumer, and it ends the
    read loop in the cases below.  For a read that returns an error [e]
    after reads that all delivered bytes without error:
    - the multi-connection reader performs no further read, whatever that
      read delivered; when it delivered no bytes, the accumulator as it is
      before that read, if not empty, is sent as the last record;
    - the file reader, when that read delivered no bytes, performs no
      further read and closes the channel;
    - in both, what the consumer receives does not depend on the error
      value; the file reader writes the error to the log. *)
Theorem C2_read_error_ends_multi_reader_unreported :
  forall (pre : Source) (d : bytes) (e : error) (rest : Source),
    forallb goodRead pre = true ->
    reads (TcpMulti.getLinesChannel (failingAt pre d e rest)) = S (length pre) /\
    records (TcpMulti.getLinesChannel (failingAt pre [] e rest))
    = records (outcome (feed TcpMulti.body pre init))
      ++ flushed (line (outcome (feed TcpMulti.body pre init))) /\
    (reads (FileReader.getLinesChannel (failingAt pre [] e rest)) = S (length pre) /\
     closed (strChan (FileReader.getLinesChannel (failingAt pre [] e rest))) = true) /\
    (forall e' : error,
        strChan (TcpMulti.getLinesChannel (failingAt pre d e' rest))
        = strChan (TcpMulti.getLinesChannel (failingAt pre d e rest))) /\
    (forall e' : error,
        strChan (FileReader.getLinesChannel (failingAt pre d e' rest))
        = strChan (FileReader.getLinesChannel (failingAt pre d e rest))) /\
    In e (console (FileReader.getLinesChannel (failingAt pre d e rest))).
Proof.
  intros pre d e rest Hgood.
  unfold TcpMulti.getLinesChannel, FileReader.getLinesChannel, failingAt.
  split; [|split; [|split; [|split; [|split]]]].
  - rewrite (@TcpMulti_stops_at_error pre rest d e Hgood init). simpl. lia.
  - rewrite loop_app, (feed_good_TcpMulti pre Hgood init).
    generalize (outcome (feed TcpMulti.body pre init)). intros st'.
    cbn [loop]. unfold TcpMulti.body, records, flushed. simpl.
    destruct (line st'); simpl; [now rewrite app_nil_r | reflexivity].
  - split; [|apply FileReader_closes].
    rewrite loop_app.
    destruct (feed_good_FileReader pre Hgood init) as (st' & Hfeed & Hreads).
    rewrite Hfeed. cbn [loop]. unfold FileReader.body. simpl.
    rewrite Hreads. simpl. lia.
  - intros e'. now rewrite (@TcpMulti_error_value pre rest d e' e init).
  - intros e'.
    assert (Hq : quiet (loop FileReader.body (pre ++ mkRead d (Some e') :: rest) init)
                 = quiet (loop FileReader.body (pre ++ mkRead d (Some e) :: rest) init)).
    { apply FileReader_ignores_errors; [|reflexivity].
      apply Forall2_app; [apply same_data_refl|].
      constructor; [reflexivity | apply same_data_refl]. }
    apply (f_equal strChan) in Hq. exact Hq.
  - now apply FileReader_logs_error.
Qed.

Lemma C2_read_error_ends_multi_reader_unreported_witness :
  forallb goodRead [fullRead] = true /\
  reads (TcpMulti.getLinesChannel (failingAt [fullRead] (lit "ij") (ErrIO 104) [laterRead]))
  = 2 /\
  records (TcpMulti.getLinesChannel (failingAt [fullRead] [] (ErrIO 104) [laterRead]))
  = [lit "abcdefgh"] /\
  reads (FileReader.getLinesChannel (failingAt [fullRead] [] (ErrIO 104) [laterRead]))
  = 2.
Proof.
  split; [reflexivity|].
  destruct (C2_read_error_ends_multi_reader_unreported
              [fullRead] (lit "ij") (ErrIO 104) [laterRead] eq_refl)
    as (Hreads & Hrecs & (Hfile & _) & _).
  split; [exact Hreads|]. split; [|exact Hfile].
  rewrite Hrecs. reflexivity.
Defined.

(** ** A connection that stalls *)

Lemma loop_feed (body : ReadResult -> State -> Loop) (f : Source) :
  forall st,
    loop body f st
    = match feed body f st with
      | Continue st' => outcome (body eofRead st')
      | Return st' => st'
      end.
Proof.
  induction f as [|r f IH]; intros st.
  - cbn [loop feed]. now destruct (body eofRead st).
  - cbn [loop feed]. destruct (body r st); [apply IH | reflexivity].
Qed.

Lemma feed_delivering_TcpListener (f : Source) :
  forallb deliversBytes f = true ->
  forall st, feed TcpListener.body f st
             = Continue (outcome (feed TcpListener.body f st)).
Proof.
  induction f as [|r f IH]; intros Hf st.
  - reflexivity.
  - simpl in Hf. apply andb_true_iff in Hf. destruct Hf as [Hr Hf].
    unfold deliversBytes in Hr. apply negb_true_iff in Hr.
    cbn [feed]. unfold TcpListener.body. rewrite Hr. now apply IH.
Qed.

(** Without stalling connections this is the accept loop as before. *)
Lemma TcpListenerStall_agrees (l : Listener) :
  forall out,
    TcpListenerStall.main (map (fun r => TcpListenerStall.mkPeer r false) l) out
    = match TcpListenerMain.main l out with
      | Alive o => TcpListenerStall.Accepting o
      | Panicked o => TcpListenerStall.Crashed o
      end.
Proof.
  induction l as [|r l IH]; intros out.
  - reflexivity.
  - cbn [map TcpListenerStall.main TcpListenerMain.main
         TcpListenerStall.accepted TcpListenerStall.stalls].
    destruct (conn r) as [f|]; [|reflexivity].
    unfold TcpListener.getLinesChannel. rewrite loop_feed.
    destruct (feed TcpListener.body f init); apply IH.
Qed.

(** C8: the single-connection listener does not serve connections
    independently.  Its accept loop ranges over the channel of the accepted
    connection before it calls [Accept] again, so a connection that has
    delivered bytes and then stays open without sending halts the loop: the
    listener waits on that connection, and whatever connections come later
    are never accepted.  When the same connection ends instead, the loop
    goes on with the later ones. *)
Theorem C8_stalled_connection_halts_accept_loop :
  forall (f : Source) (e : option error) (later : list TcpListenerStall.Peer),
    forallb deliversBytes f = true ->
    TcpListenerStall.main
      (TcpListenerStall.mkPeer (mkAccept (Some f) e) true :: later) []
    = TcpListenerStall.Waiting
        (logAccept (mkAccept (Some f) e)
         ++ [Println (lit "connection accepted!")]
         ++ flat_map TcpListenerMain.consume
              (records (outcome (feed TcpListener.body f init)))) /\
    TcpListenerStall.main
      (TcpListenerStall.mkPeer (mkAccept (Some f) e) false :: later) []
    = TcpListenerStall.main later
        (logAccept (mkAccept (Some f) e)
         ++ [Println (lit "connection accepted!")]
         ++ flat_map TcpListenerMain.consume
              (records (TcpListener.getLinesChannel f))).
Proof.
  intros f e later Hf.
  cbn [TcpListenerStall.main TcpListenerStall.accepted TcpListenerStall.stalls conn].
  rewrite (feed_delivering_TcpListener f Hf init).
  unfold TcpListener.getLinesChannel.
  rewrite loop_feed, (feed_delivering_TcpListener f Hf init).
  rewrite !app_nil_l, <- !app_assoc. split; reflexivity.
Qed.

Lemma C8_stalled_connection_halts_accept_loop_witness :
  forallb deliversBytes [fullRead] = true /\
  TcpListenerStall.main
    [TcpListenerStall.mkPeer (mkAccept (Some [fullRead]) None) true;
     TcpListenerStall.mkPeer (mkAccept (Some twoLines) None) false] []
  = TcpListenerStall.Waiting [Println (lit "connection accepted!")].
Proof.
  split; [reflexivity|].
  exact (proj1 (C8_stalled_connection_halts_accept_loop
                  [fullRead] None
                  [TcpListenerStall.mkPeer (mkAccept (Some twoLines) None) false]
                  eq_refl)).
Defined.

(** * Further properties of the modelled code *)

(** ** [strings.Index], [strings.Split] and [strings.Join] *)

Lemma HasPrefix_split (p : bytes) :
  forall s, HasPrefix s p = true -> s = p ++ skipn (length p) s.
Proof.
  induction p as [|c p IH]; intros s H.
  - reflexivity.
  - destruct s as [|c' s]; [discriminate|]. cbn [HasPrefix] in H.
    apply andb_true_iff in H. destruct H as [Hc Hp].
    apply Byte.byte_dec_bl in Hc. subst c'. simpl. f_equal. now apply IH.
Qed.

(** [Index] points at an occurrence of the separator. *)
Lemma Index_Some_split (sep : bytes) :
  forall s m, Index s sep = Some m ->
              s = firstn m s ++ sep ++ skipn (m + length sep) s.
Proof.
  induction s as [|c s IH]; intros m.
  - cbn [Index]. destruct (HasPrefix [] sep) eqn:Hp; [|discriminate].
    intros [= <-]. simpl. now apply HasPrefix_split.
  - cbn [Index]. destruct (HasPrefix (c :: s) sep) eqn:Hp.
    + intros [= <-]. cbn [firstn app Nat.add]. now apply HasPrefix_split.
    + destruct (Index s sep) as [k|] eqn:Hi; [|discriminate].
      simpl. intros [= <-]. simpl. f_equal. now apply IH.
Qed.

(** ** One chunk *)

Lemma Index_nil_l (sep : bytes) (m : nat) : Index [] sep = Some m -> m = 0.
Proof.
  cbn [Index]. destruct (HasPrefix [] sep); [|discriminate]. now intros [= <-].
Qed.

(** X2: when the chunk holds the delimiter, the record sent is the
    accumulator followed by the bytes of the chunk before the first
    occurrence of the delimiter, and nothing else is sent. *)
Theorem X2_chunk_sends_text_before_first_delimiter :
  forall (delim : bytes) (st : State) (m : nat),
    Index (a st) delim = Some m ->
    records (chunk delim st) = records st ++ [line st ++ firstn m (a st)].
Proof.
  intros delim st m Hi. unfold chunk, Contains, Split, records. rewrite Hi.
  cbn [strChan send sent]. do 2 f_equal.
  destruct (a st) as [|c s] eqn:Ha.
  - apply Index_nil_l in Hi. subst m. reflexivity.
  - cbn [length genSplit]. rewrite Hi. cbn [firstn Join]. reflexivity.
Qed.

Lemma X2_chunk_sends_text_before_first_delimiter_witness :
  Index (a (doRead (mkRead resetRead None) init)) [LF] = Some 5 /\
  records (chunk [LF] (doRead (mkRead resetRead None) init)) = [lit "first"].
Proof.
  split; [reflexivity|].
  apply (X2_chunk_sends_text_before_first_delimiter
           [LF] (doRead (mkRead resetRead None) init) (m := 5)).
  reflexivity.
Defined.

(** ** What reaches the consumer when every read fills the buffer *)

Lemma without_free (d : byte) (s : bytes) : ~ In d s -> without d s = s.
Proof.
  induction s as [|c s IH]; intros H; simpl; [reflexivity|].
  destruct (Byte.eqb c d) eqn:E.
  - apply Byte.byte_dec_bl in E. subst. exfalso. apply H. now left.
  - simpl. f_equal. apply IH. intros Hin. apply H. now right.
Qed.

Lemma without_self (d : byte) : without d [d] = [].
Proof. unfold without. simpl. now rewrite (Byte.byte_dec_lb (eq_refl d)). Qed.

Lemma without_app (d : byte) (x y : bytes) :
  without d (x ++ y) = without d x ++ without d y.
Proof. apply filter_app. Qed.

Lemma concat_genSplit_single (d : byte) (n : nat) :
  forall s, length s <= n -> concat (genSplit n s [d]) = without d s.
Proof.
  induction n as [|n IH]; intros s Hlen.
  - destruct s; [reflexivity | simpl in Hlen; lia].
  - cbn [genSplit]. destruct (Index s [d]) as [m|] eqn:Hi.
    + destruct (Index_single_Some d s Hi) as [Hfree Hm].
      pose proof (Index_Some_split [d] s Hi) as Hs.
      cbn [concat]. rewrite IH by (rewrite length_skipn; simpl; lia).
      remember (firstn m s) as p. remember (skipn (m + length [d]) s) as q.
      rewrite Hs. rewrite !without_app, without_self, (@without_free d p Hfree).
      reflexivity.
    + apply Index_single_None in Hi. simpl. rewrite app_nil_r.
      symmetry. now apply without_free.
Qed.

(** One chunk hands on its bytes in order, less the delimiter bytes. *)
Lemma chunk_strips (d : byte) (st : State) :
  concat (records (chunk [d] st)) ++ line (chunk [d] st)
  = concat (records st) ++ line st ++ without d (a st).
Proof.
  unfold chunk, records. destruct (Contains (a st) [d]) eqn:Hc;
    cbn [strChan sent send line app].
  - rewrite !Join_nil_concat, concat_app. cbn [concat]. rewrite app_nil_r.
    rewrite <- !app_assoc. do 2 f_equal.
    rewrite <- concat_app, firstn_skipn.
    apply concat_genSplit_single. lia.
  - apply Contains_single_false in Hc. now rewrite (@without_free d (a st) Hc).
Qed.

Lemma fill_full (buf : bytes) (r : ReadResult) :
  length (rdata r) = length buf -> fill buf r = rdata r.
Proof.
  intros H. unfold fill. rewrite skipn_all2 by lia. apply app_nil_r.
Qed.

Lemma FileReader_strips (f : Source) :
  fullReads f ->
  forall st, length (a st) = bufSize ->
    concat (records (loop FileReader.body f st)) ++ line (loop FileReader.body f st)
    = (concat (records st) ++ line st) ++ without LF (delivered f).
Proof.
  induction 1 as [|r f Hr _ IH]; intros st Ha.
  - simpl. now rewrite app_nil_r.
  - cbn [loop]. unfold FileReader.body. rewrite Hr. cbn [Nat.eqb bufSize].
    rewrite IH.
    + unfold FileReader.delim. rewrite chunk_strips.
      assert (Hbuf : a (printErr r (doRead r st)) = rdata r).
      { unfold printErr. destruct (rerr r); simpl; apply fill_full; congruence. }
      assert (Hl : line (printErr r (doRead r st)) = line st)
        by (unfold printErr; destruct (rerr r); reflexivity).
      assert (Hrec : records (printErr r (doRead r st)) = records st)
        by (unfold printErr, records; destruct (rerr r); reflexivity).
      rewrite Hbuf, Hl, Hrec. unfold delivered. cbn [map concat].
      rewrite without_app, <- !app_assoc. reflexivity.
    + assert (Hbuf : a (printErr r (doRead r st)) = rdata r).
      { unfold printErr. destruct (rerr r); simpl; apply fill_full; congruence. }
      unfold chunk. destruct (Contains _ _); simpl; congruence.
Qed.

(** X3: when every read fills the 8-byte buffer, the file reader hands the
    bytes on in the order read, each once, and removes nothing but line
    feeds: the records followed by what is left in the accumulator are the
    bytes delivered less the line feeds. *)
Theorem X3_full_reads_lose_only_line_feeds :
  forall f : Source,
    fullReads f ->
    concat (records (FileReader.getLinesChannel f))
      ++ line (FileReader.getLinesChannel f)
    = without LF (delivered f).
Proof.
  intros f Hf. unfold FileReader.getLinesChannel.
  rewrite (FileReader_strips Hf init eq_refl). reflexivity.
Qed.

Lemma X3_full_reads_lose_only_line_feeds_witness :
  fullReads twoLines /\
  concat (records (FileReader.getLinesChannel twoLines))
    ++ line (FileReader.getLinesChannel twoLines)
  = lit "firstsecondxyz".
Proof.
  assert (H : fullReads twoLines) by (repeat constructor).
  split; [exact H|].
  rewrite (X3_full_reads_lose_only_line_feeds H). reflexivity.
Defined.

(** ** Exact reconstruction *)

Lemma genSplit_free (d : byte) (n : nat) (s : bytes) :
  ~ In d s -> genSplit n s [d] = [s].
Proof.
  intros H. apply Index_single_None in H.
  destruct n; simpl; [reflexivity | now rewrite H].
Qed.

(** A string with a single occurrence of the separator is cut in two. *)
Lemma Split_single_occurrence (d : byte) (s : bytes) (m : nat) :
  Index s [d] = Some m ->
  count_occ Byte.byte_eq_dec s d <= 1 ->
  Split s [d] = [firstn m s; skipn (m + 1) s].
Proof.
  intros Hi Hc. unfold Split.
  destruct (Index_single_Some d s Hi) as [_ Hm].
  destruct (length s) as [|n] eqn:Hlen; [lia|].
  cbn [genSplit]. rewrite Hi. cbn [length]. f_equal.
  apply genSplit_free.
  pose proof (Index_Some_split [d] s Hi) as Hs. cbn [length] in Hs.
  rewrite Hs in Hc. rewrite !count_occ_app in Hc. simpl in Hc.
  destruct (Byte.byte_eq_dec d d) as [_|Hne]; [|contradiction].
  apply (count_occ_not_In Byte.byte_eq_dec). lia.
Qed.

Lemma reassemble_app (delim : bytes) (x y : list bytes) :
  reassemble delim (x ++ y) = reassemble delim x ++ reassemble delim y.
Proof. unfold reassemble. now rewrite map_app, concat_app. Qed.

Lemma chunk_keeps_bytes (d : byte) (st : State) :
  count_occ Byte.byte_eq_dec (a st) d <= 1 ->
  reassemble [d] (records (chunk [d] st)) ++ line (chunk [d] st)
  = reassemble [d] (records st) ++ line st ++ a st.
Proof.
  intros Hc. unfold chunk, Contains, records.
  destruct (Index (a st) [d]) as [m|] eqn:Hi; cbn [strChan sent send line app].
  - rewrite (@Split_single_occurrence d (a st) m Hi Hc). cbn [firstn skipn Join].
    rewrite reassemble_app. unfold reassemble at 2. cbn [map concat].
    rewrite app_nil_r, <- !app_assoc. do 3 f_equal.
    pose proof (Index_Some_split [d] (a st) Hi) as Hs. cbn [length] in Hs.
    symmetry. exact Hs.
  - reflexivity.
Qed.

Lemma FileReader_keeps_bytes (f : Source) :
  fullReads f -> oneLinePerRead f ->
  forall st, length (a st) = bufSize ->
    reassemble [LF] (records (loop FileReader.body f st))
      ++ line (loop FileReader.body f st)
    = (reassemble [LF] (records st) ++ line st) ++ delivered f.
Proof.
  induction 1 as [|r f Hr _ IH]; intros Hone st Ha.
  - simpl. now rewrite app_nil_r.
  - inversion Hone as [|r' f' Hr1 Hf1]; subst.
    assert (Hbuf : a (printErr r (doRead r st)) = rdata r).
    { unfold printErr. destruct (rerr r); simpl; apply fill_full; congruence. }
    assert (Hl : line (printErr r (doRead r st)) = line st)
      by (unfold printErr; destruct (rerr r); reflexivity).
    assert (Hrec : records (printErr r (doRead r st)) = records st)
      by (unfold printErr, records; destruct (rerr r); reflexivity).
    cbn [loop]. unfold FileReader.body. rewrite Hr. cbn [Nat.eqb bufSize].
    rewrite (IH Hf1).
    + unfold FileReader.delim. rewrite chunk_keeps_bytes by (now rewrite Hbuf).
      rewrite Hbuf, Hl, Hrec. unfold delivered. cbn [map concat].
      rewrite <- !app_assoc. reflexivity.
    + unfold chunk. destruct (Contains _ _); simpl; congruence.
Qed.

(** X4: when every read fills the 8-byte buffer and holds at most one line
    feed, no byte is lost, duplicated or moved: the records, each followed
    by a line feed, and then what is left in the accumulator, are exactly
    the bytes delivered. *)
Theorem X4_full_reads_one_line_each_reconstruct :
  forall f : Source,
    fullReads f -> oneLinePerRead f ->
    reassemble [LF] (records (FileReader.getLinesChannel f))
      ++ line (FileReader.getLinesChannel f)
    = delivered f.
Proof.
  intros f Hf Hone. unfold FileReader.getLinesChannel.
  rewrite (FileReader_keeps_bytes Hf Hone init eq_refl). reflexivity.
Qed.

Lemma X4_full_reads_one_line_each_reconstruct_witness :
  fullReads twoLines /\ oneLinePerRead twoLines /\
  reassemble [LF] (records (FileReader.getLinesChannel twoLines))
    ++ line (FileReader.getLinesChannel twoLines)
  = delivered twoLines.
Proof.
  assert (Hf : fullReads twoLines) by (repeat constructor).
  assert (Hone : oneLinePerRead twoLines) by (repeat constructor).
  split; [exact Hf|]. split; [exact Hone|].
  exact (X4_full_reads_one_line_each_reconstruct Hf Hone).
Defined.

(** ** Where the loops stop *)

Lemma loop_stops (body : ReadResult -> State -> Loop) (r : ReadResult) :
  (forall st, body r st = Return (outcome (body r st))) ->
  forall pre rest st,
    loop body (pre ++ r :: rest) st = loop body (pre ++ [r]) st.
Proof.
  intros Hret pre rest. induction pre as [|r' pre IH]; intros st.
  - cbn [app loop]. now rewrite Hret.
  - cbn [app loop]. destruct (body r' st); [apply IH | reflexivity].
Qed.

(** X5: a read of zero bytes ends the loop of the file reader and of the
    single-connection listener, with or without an error value: whatever
    the source would deliver afterwards is never read. *)
Theorem X5_zero_byte_read_ends_the_loop :
  forall (pre rest : Source) (r : ReadResult),
    length (rdata r) = 0 ->
    FileReader.getLinesChannel (pre ++ r :: rest)
    = FileReader.getLinesChannel (pre ++ [r]) /\
    TcpListener.getLinesChannel (pre ++ r :: rest)
    = TcpListener.getLinesChannel (pre ++ [r]).
Proof.
  intros pre rest r Hz. split.
  - apply loop_stops. intros st. unfold FileReader.body. now rewrite Hz.
  - apply loop_stops. intros st. unfold TcpListener.body. now rewrite Hz.
Qed.

Lemma X5_zero_byte_read_ends_the_loop_witness :
  length (rdata (mkRead [] None)) = 0 /\
  FileReader.getLinesChannel ([fullRead] ++ mkRead [] None :: [laterRead])
  = FileReader.getLinesChannel ([fullRead] ++ [mkRead [] None]).
Proof.
  split; [reflexivity|].
  apply (X5_zero_byte_read_ends_the_loop [fullRead] [laterRead] (mkRead [] None)).
  reflexivity.
Defined.

(** ** How many records *)

Lemma FileReader_record_count (f : Source) :
  forall st, length (records (loop FileReader.body f st))
             <= length (records st) + length f.
Proof.
  induction f as [|r f IH]; intros st.
  - simpl. unfold records, printErr. simpl. lia.
  - cbn [loop]. unfold FileReader.body.
    assert (Hrec : records (printErr r (doRead r st)) = records st)
      by (unfold printErr, records; destruct (rerr r); reflexivity).
    destruct (Nat.eqb (length (rdata r)) 0).
    + unfold records in *. simpl in *. rewrite Hrec. lia.
    + eapply Nat.le_trans; [apply (IH (chunk FileReader.delim (printErr r (doRead r st))))|].
      pose proof (chunk_sends_at_most_one FileReader.delim
                    (printErr r (doRead r st))) as Hc.
      rewrite Hrec in Hc. cbn [length]. lia.
Qed.

Lemma TcpListener_record_count (f : Source) :
  forall st, length (records (loop TcpListener.body f st))
             <= length (records st) + S (length f).
Proof.
  induction f as [|r f IH]; intros st.
  - simpl. unfold records, printErr. simpl. rewrite length_app. simpl. lia.
  - cbn [loop]. unfold TcpListener.body.
    assert (Hrec : records (printErr r (doRead r st)) = records st)
      by (unfold printErr, records; destruct (rerr r); reflexivity).
    destruct (Nat.eqb (length (rdata r)) 0).
    + unfold records in *. simpl in *. rewrite length_app, Hrec. simpl. lia.
    + eapply Nat.le_trans; [apply (IH (chunk TcpListener.delim (printErr r (doRead r st))))|].
      pose proof (chunk_sends_at_most_one TcpListener.delim
                    (printErr r (doRead r st))) as Hc.
      rewrite Hrec in Hc. cbn [length]. lia.
Qed.

Lemma TcpMulti_record_count (f : Source) :
  forall st, length (records (loop TcpMulti.body f st))
             <= length (records st) + S (length f).
Proof.
  induction f as [|r f IH]; intros st.
  - cbn [loop]. unfold TcpMulti.body, records. simpl.
    destruct (line st); simpl; [lia|].
    rewrite length_app. simpl. lia.
  - cbn [loop]. unfold TcpMulti.body.
    destruct (Nat.eqb (length (rdata r)) 0 || negb (TcpMulti.isNil (rerr r))).
    + unfold records. simpl. destruct (line st); simpl; [lia|].
      rewrite length_app. simpl. lia.
    + eapply Nat.le_trans; [apply (IH (chunk TcpMulti.delim (doRead r st)))|].
      pose proof (chunk_sends_at_most_one TcpMulti.delim (doRead r st)) as Hc.
      change (records (doRead r st)) with (records st) in Hc. cbn [length]. lia.
Qed.

(** X6: a reader never sends more records than the source has reads: at
    most one per scripted read for the file reader, and one more (the
    sentinel, or the accumulator flushed at the end) for the two
    listeners. *)
Theorem X6_at_most_one_record_per_read :
  forall f : Source,
    length (records (FileReader.getLinesChannel f)) <= length f /\
    length (records (TcpListener.getLinesChannel f)) <= S (length f) /\
    length (records (TcpMulti.getLinesChannel f)) <= S (length f).
Proof.
  intros f. split; [|split].
  - apply (FileReader_record_count f init).
  - apply (TcpListener_record_count f init).
  - apply (TcpMulti_record_count f init).
Qed.

(** ** The end-of-stream sentinel of the single-connection listener *)



(** ** When the accept loops survive *)



(** ** The goroutines of the multi-connection listener *)

Lemma TcpMulti_leaves_open (f : Source) :
  closed (strChan (TcpMulti.getLinesChannel f)) = false.
Proof.
  apply (loop_invariant TcpMulti.body stillOpen stillOpen_TcpMulti_body f init).
  reflexivity.
Qed.

Lemma handler_not_done (c : option Source) :
  isDone (TcpMultiMain.handler c) = false.
Proof.
  destruct c as [f|]; [|reflexivity].
  unfold TcpMultiMain.handler. now rewrite TcpMulti_leaves_open.
Qed.

(** X9: the goroutine started for a connection prints the records and then
    waits on the channel for ever: it never prints the closing notice and
    never reaches the deferred [conn.Close()].  So none of the goroutines
    the accept loop has started ever runs to its end. *)
Theorem X9_connection_goroutines_never_finish :
  (forall f : Source,
      TcpMultiMain.handler (Some f)
      = TcpMultiMain.TBlocked (map Println (records (TcpMulti.getLinesChannel f)))) /\
  (forall l : Listener,
      existsb isDone (snd (TcpMultiMain.main l [] [])) = false /\
      length (snd (TcpMultiMain.main l [] [])) = length l).
Proof.
  split.
  - intros f. unfold TcpMultiMain.handler. now rewrite TcpMulti_leaves_open.
  - intros l. rewrite TcpMultiMain_tasks. cbn [app]. split.
    + induction l as [|r l IH]; [reflexivity|].
      cbn [map existsb]. now rewrite handler_not_done, IH.
    + apply length_map.
Qed.

(** ** [main] of the file reader *)

Lemma lit_read_free : ~ In LF (lit "read: ").
Proof. vm_compute. intuition discriminate. Qed.

Lemma readLine_oneLine (recs : list bytes) :
  Forall (fun r => ~ In LF r) recs ->
  forallb oneLine (map FileReaderMain.readLine recs) = true.
Proof.
  induction 1 as [|r recs Hr _ IH]; [reflexivity|].
  cbn [map forallb]. rewrite IH, andb_true_r.
  unfold FileReaderMain.readLine, oneLine. apply negb_true_iff.
  apply Contains_single_false. rewrite in_app_iff.
  intros [H|H]; [now apply lit_read_free | contradiction].
Qed.

(** X10: [main] of the file reader returns on every file it could open,
    after printing one "read: " line per record; none of these lines has a
    line feed inside.  When the file cannot be opened it logs the error and
    returns without reading. *)
Theorem X10_file_main_prints_one_line_per_record :
  (forall f : Source,
      FileReaderMain.main (FileReaderMain.OpenOk f)
      = FileReaderMain.Exited
          (map FileReaderMain.readLine (records (FileReader.getLinesChannel f))) /\
      forallb oneLine
        (map FileReaderMain.readLine (records (FileReader.getLinesChannel f)))
      = true) /\
  (forall e : error,
      FileReaderMain.main (FileReaderMain.OpenErr e)
      = FileReaderMain.Exited [LogErr e]).
Proof.
  split; [|reflexivity]. intros f. split.
  - unfold FileReaderMain.main, FileReader.getLinesChannel.
    now rewrite FileReader_closes.
  - apply readLine_oneLine.
    apply (loop_invariant FileReader.body lfFree lfFree_FileReader_body f init
                          lfFree_init).
Qed.

(** ** The buffer *)

Lemma fill_length (buf : bytes) (r : ReadResult) :
  length (rdata r) <= length buf -> length (fill buf r) = length buf.
Proof.
  intros H. unfold fill. rewrite length_app, length_skipn. lia.
Qed.

Lemma loop_invariant_on (body : ReadResult -> State -> Loop)
      (Q : ReadResult -> Prop) (P : State -> Prop) :
  Q eofRead ->
  (forall r st, Q r -> P st -> P (outcome (body r st))) ->
  forall f, Forall Q f -> forall st, P st -> P (loop body f st).
Proof.
  intros Qeof Hbody f Hf. induction Hf as [|r f Hr _ IH]; intros st Hst; simpl.
  - specialize (Hbody eofRead st Qeof Hst). now destruct (body eofRead st).
  - specialize (Hbody r st Hr Hst). destruct (body r st); simpl in Hbody; auto.
Qed.

Lemma bufferKept_input (r : ReadResult) (st : State) :
  length (rdata r) <= bufSize -> bufferKept st ->
  bufferKept (printErr r (doRead r st)).
Proof.
  unfold bufferKept, printErr. intros Hr Ha.
  destruct (rerr r); simpl; rewrite fill_length; lia.
Qed.

Lemma bufferKept_chunk (delim : bytes) (st : State) :
  bufferKept st -> bufferKept (chunk delim st).
Proof.
  unfold bufferKept, chunk. destruct (Contains _ _); simpl; auto.
Qed.

Lemma bufferKept_FileReader (r : ReadResult) (st : State) :
  length (rdata r) <= bufSize -> bufferKept st ->
  bufferKept (outcome (FileReader.body r st)).
Proof.
  intros Hr Ha. pose proof (bufferKept_input r Hr Ha) as H1.
  unfold FileReader.body. destruct (Nat.eqb _ 0); simpl.
  - exact H1.
  - now apply bufferKept_chunk.
Qed.

Lemma bufferKept_TcpListener (r : ReadResult) (st : State) :
  length (rdata r) <= bufSize -> bufferKept st ->
  bufferKept (outcome (TcpListener.body r st)).
Proof.
  intros Hr Ha. pose proof (bufferKept_input r Hr Ha) as H1.
  unfold TcpListener.body. destruct (Nat.eqb _ 0); simpl.
  - exact H1.
  - now apply bufferKept_chunk.
Qed.

Lemma bufferKept_TcpMulti (r : ReadResult) (st : State) :
  length (rdata r) <= bufSize -> bufferKept st ->
  bufferKept (outcome (TcpMulti.body r st)).
Proof.
  intros Hr Ha.
  assert (H1 : bufferKept (doRead r st))
    by (unfold bufferKept in *; simpl; rewrite fill_length; lia).
  unfold TcpMulti.body. destruct (_ || _); simpl.
  - destruct (line st); exact H1.
  - now apply bufferKept_chunk.
Qed.

Lemma withinBudget_FileReader (r : ReadResult) (st : State) :
  length (rdata r) <= bufSize -> withinBudget st ->
  withinBudget (outcome (FileReader.body r st)).
Proof.
  intros Hr [Ha Hb]. split; [now apply bufferKept_FileReader|].
  pose proof (bufferKept_input r Hr Ha) as H1.
  assert (Hh : held (printErr r (doRead r st)) = held st)
    by (unfold held, printErr, records; destruct (rerr r); reflexivity).
  assert (Hn : reads (printErr r (doRead r st)) = S (reads st))
    by (unfold printErr; destruct (rerr r); reflexivity).
  unfold FileReader.body. destruct (Nat.eqb _ 0); cbn [outcome].
  - unfold held, records in *. cbn [strChan close sent line reads] in *.
    rewrite Hn. unfold bufSize in *. lia.
  - pose proof (chunk_strips LF (printErr r (doRead r st))) as Hs.
    apply (f_equal (@length byte)) in Hs. rewrite !length_app in Hs.
    pose proof (filter_length_le (fun c => negb (Byte.eqb c LF))
                                 (a (printErr r (doRead r st)))) as Hf.
    fold (without LF (a (printErr r (doRead r st)))) in Hf.
    unfold bufferKept in H1. unfold FileReader.delim.
    assert (Hr' : reads (chunk [LF] (printErr r (doRead r st))) = S (reads st))
      by (unfold chunk; destruct (Contains _ _); simpl; exact Hn).
    unfold held in *. rewrite Hr'. unfold bufSize in *. lia.
Qed.

(** X11: for a source whose reads store at most eight bytes, the buffer
    keeps its eight bytes in the three readers, and the file reader takes at
    most eight bytes per read: the bytes it has sent plus those waiting in
    the accumulator never exceed eight times the number of reads. *)
Theorem X11_buffer_kept_and_eight_bytes_per_read :
  forall f : Source,
    wf_source f ->
    length (a (FileReader.getLinesChannel f)) = bufSize /\
    length (a (TcpListener.getLinesChannel f)) = bufSize /\
    length (a (TcpMulti.getLinesChannel f)) = bufSize /\
    held (FileReader.getLinesChannel f)
    <= bufSize * reads (FileReader.getLinesChannel f).
Proof.
  intros f Hf.
  assert (Heof : length (rdata eofRead) <= bufSize) by (simpl; lia).
  assert (Hinit : withinBudget init) by (split; [reflexivity | vm_compute; lia]).
  pose (Q := fun r : ReadResult => length (rdata r) <= bufSize).
  destruct (@loop_invariant_on FileReader.body Q withinBudget Heof
              (@withinBudget_FileReader) f Hf init Hinit) as [H1 H4].
  repeat split.
  - exact H1.
  - exact (@loop_invariant_on TcpListener.body Q bufferKept Heof
             (@bufferKept_TcpListener) f Hf init eq_refl).
  - exact (@loop_invariant_on TcpMulti.body Q bufferKept Heof
             (@bufferKept_TcpMulti) f Hf init eq_refl).
  - exact H4.
Qed.

Lemma X11_buffer_kept_and_eight_bytes_per_read_witness :
  wf_source shortReads /\
  length (a (FileReader.getLinesChannel shortReads)) = bufSize /\
  held (FileReader.getLinesChannel shortReads)
  <= bufSize * reads (FileReader.getLinesChannel shortReads).
Proof.
  assert (Hf : wf_source shortReads) by (repeat constructor).
  destruct (X11_buffer_kept_and_eight_bytes_per_read Hf) as (H1 & _ & _ & H4).
  split; [exact Hf|]. split; [exact H1 | exact H4].
Defined.

(** ** A stream without delimiter *)

Lemma TcpMulti_no_delimiter (f : Source) :
  plainReads TcpMulti.delim f ->
  forall st, length (a st) = bufSize ->
    records (loop TcpMulti.body f st)
    = records st ++ flushed (line st ++ delivered f).
Proof.
  induction 1 as [|r f (Hlen & Herr & Hc) _ IH]; intros st Ha.
  - cbn [loop]. unfold TcpMulti.body, records, delivered. simpl.
    rewrite app_nil_r. destruct (line st); simpl; [now rewrite app_nil_r | reflexivity].
  - cbn [loop]. unfold TcpMulti.body. rewrite Hlen, Herr. cbn [Nat.eqb bufSize orb negb TcpMulti.isNil].
    assert (Hbuf : a (doRead r st) = rdata r)
      by (simpl; apply fill_full; congruence).
    unfold chunk. rewrite Hbuf, Hc.
    rewrite IH by (simpl; congruence).
    unfold records, delivered. cbn [strChan line map concat].
    now rewrite app_assoc.
Qed.

(** X12: a stream that the multi-connection reader receives in full reads
    without error and without any CR LF inside a read is handed over as one
    record when it ends, and as no record at all when it is empty.  A CR LF
    that lies across two reads does not count: it stays inside that
    record. *)
Theorem X12_stream_without_delimiter_is_one_record :
  forall f : Source,
    plainReads TcpMulti.delim f ->
    records (TcpMulti.getLinesChannel f) = flushed (delivered f).
Proof.
  intros f Hf. unfold TcpMulti.getLinesChannel.
  now rewrite (TcpMulti_no_delimiter Hf init eq_refl).
Qed.

Lemma X12_stream_without_delimiter_is_one_record_witness :
  plainReads TcpMulti.delim cutDelimiter /\
  records (TcpMulti.getLinesChannel cutDelimiter) = flushed (delivered cutDelimiter).
Proof.
  assert (Hf : plainReads TcpMulti.delim cutDelimiter)
    by (repeat constructor).
  split; [exact Hf|].
  exact (X12_stream_without_delimiter_is_one_record Hf).
Defined.
